(** * Order book view over a Binance stream: model and properties

    The repository has two TypeScript sources: the [OrderBook] React
    component (ledgers held in refs, render coalescing through
    [requestAnimationFrame], top-of-book and spread) and the
    [useBinanceSocket] hook (address construction, message routing,
    reconnection with backoff, shutdown).  Both are embedded below as
    functions on explicit states.  The module [lib/orderbook], which the
    component imports, is not among the sources and is modelled from the
    specification.

    Numbers.  JavaScript numbers are IEEE binary64 values.  The
    reconnection backoff is computed on binary64 numbers ([float]), as
    the hook does; prices and quantities, which come from the modelled
    library, are canonical rationals ([Qc]). *)

From Stdlib Require Import ZArith QArith Qcanon Qminmax Qpower Qabs.
From Stdlib Require Import String Ascii List Lia Floats.
From stdpp Require Import base numbers strings sorting option list gmap.

Set Warnings "-inexact-float,-register-all".

Local Open Scope string_scope.

(* ===================================================================== *)
(** * Decoded JSON values *)
(* ===================================================================== *)

Module Json.

(** The result of a successful [JSON.parse].  An object is kept as the
    list of its members. *)
Inductive json : Type :=
| JNull
| JBool (b : bool)
| JNum (q : Q)
| JStr (s : string)
| JArr (items : list json)
| JObj (members : list (string * json)).

(** A JavaScript value read out of decoded JSON: [None] is [undefined]. *)
Definition value := option json.

Fixpoint member (k : string) (ms : list (string * json)) : value :=
  match ms with
  | [] => None
  | (k', v) :: rest => if String.eqb k k' then Some v else member k rest
  end.

(** Result of an expression that may throw a [TypeError]. *)
Inductive completion (A : Type) : Type :=
| Normal (a : A)
| TypeError.
Arguments Normal {A} a.
Arguments TypeError {A}.

(** [k in v], for a key [k] that is neither an array index nor
    [length]: a [TypeError] unless [v] is an object or an array. *)
Definition js_in (k : string) (v : json) : completion bool :=
  match v with
  | JObj ms => Normal (bool_decide (is_Some (member k ms)))
  | JArr _ => Normal false
  | _ => TypeError
  end.

(** [v.k] on a decoded value known to be an object or array, and
    [v?.k] on any value, for the same kind of key. *)
Definition get (k : string) (v : json) : value :=
  match v with
  | JObj ms => member k ms
  | _ => None
  end.

Definition opt_get (k : string) (v : value) : value :=
  match v with
  | None | Some JNull => None
  | Some j => get k j
  end.

(** JavaScript truthiness. *)
Definition truthy (v : value) : bool :=
  match v with
  | None | Some JNull => false
  | Some (JBool b) => b
  | Some (JNum q) => negb (Qeq_bool q 0)
  | Some (JStr s) => negb (String.eqb s "")
  | Some (JArr _) | Some (JObj _) => true
  end.

(** Strict equality with a string literal, as in a [switch] case. *)
Definition is_str (lit : string) (v : value) : bool :=
  match v with
  | Some (JStr s) => String.eqb s lit
  | _ => false
  end.

End Json.
Import Json.

(* ===================================================================== *)
(** * The ledger library ([lib/orderbook]) *)
(* ===================================================================== *)

Module OrderbookLib.

Local Open Scope Qc_scope.

Inductive Side : Type := Bids | Asks.

(** A row of a snapshot, as the component declares it ([OrderRow]). *)
Record OrderRow : Type := mkRow { price : Qc; qty : Qc; cum : Qc }.

(** One change of a depth event: [[price, quantity]], both as strings. *)
Definition Change : Type := string * string.

(** ** Reading a decimal numeral *)

Definition digit_of (c : ascii) : option Z :=
  let n := nat_of_ascii c in
  if (48 <=? n)%nat && (n <=? 57)%nat then Some (Z.of_nat (n - 48)) else None.

Fixpoint digits_value (s : string) (acc : Z) : option Z :=
  match s with
  | EmptyString => Some acc
  | String c rest =>
      match digit_of c with
      | Some d => digits_value rest (10 * acc + d)%Z
      | None => None
      end
  end.

(** Splits at the first ["."]: the integer part and, when there is a
    point, the fraction digits. *)
Fixpoint split_point (s : string) : string * option string :=
  match s with
  | EmptyString => (EmptyString, None)
  | String c rest =>
      if Ascii.eqb c "."%char then (EmptyString, Some rest)
      else let '(i, f) := split_point rest in (String c i, f)
  end.

Definition unsigned_decimal (s : string) : option Qc :=
  let '(ip, fp) := split_point s in
  let fr := default EmptyString fp in
  if (String.length ip + String.length fr =? 0)%nat then None
  else
    match digits_value ip 0, digits_value fr 0 with
    | Some i, Some f =>
        let scale := Z.to_pos (10 ^ Z.of_nat (String.length fr)) in
        Some (Q2Qc ((i * Z.pos scale + f) # scale))
    | _, _ => None
    end.

(** Modelled from the spec: the conversion of the feed's [priceAsString]
    and [quantityAsString] to numbers, which [lib/orderbook] performs and
    which is not among the sources.  A plain decimal numeral with an
    optional leading minus sign is read; anything else is non-numeric. *)
Definition parse_decimal (s : string) : option Qc :=
  match s with
  | String "-"%char rest => Qcopp <$> unsigned_decimal rest
  | _ => unsigned_decimal s
  end.

(** ** Price-level ledger *)

(** Modelled from the spec: [PriceLevelLedger.set(price, quantity)] of
    [lib/orderbook], not among the sources.  A positive quantity inserts
    or overwrites the level, a zero quantity removes it, and a negative
    quantity is rejected (the ledger is left as it is). *)
Definition set_level (p q : Qc) (m : gmap Qc Qc) : gmap Qc Qc :=
  if decide (0 < q) then <[p := q]> m
  else if decide (q = 0) then delete p m
  else m.

(** A sequence of [set] operations, applied in order. *)
Definition set_levels (ops : list (Qc * Qc)) (m : gmap Qc Qc) : gmap Qc Qc :=
  foldl (fun acc op => set_level op.1 op.2 acc) m ops.

(** Modelled from the spec: how one [[price, quantity]] change of a batch
    is applied by [applyDepthDelta] of [lib/orderbook], not among the
    sources.  An entry whose price or quantity is non-numeric or
    negative is dropped; the others go through [set]. *)
Definition apply_change (m : gmap Qc Qc) (c : Change) : gmap Qc Qc :=
  match parse_decimal c.1, parse_decimal c.2 with
  | Some p, Some q =>
      if decide (p < 0) then m
      else if decide (q < 0) then m
      else set_level p q m
  | _, _ => m
  end.

(** Modelled from the spec: [applyDepthDelta(ledger, changes)] of
    [lib/orderbook], not among the sources: the changes of one side are
    applied to that side's ledger in the order received. *)
Definition applyDepthDelta (m : gmap Qc Qc) (changes : list Change) : gmap Qc Qc :=
  foldl apply_change m changes.

(** ** Snapshots *)

(** Book priority between two levels: highest price first for bids,
    lowest price first for asks. *)
Definition before (side : Side) (x y : Qc * Qc) : Prop :=
  match side with
  | Bids => y.1 <= x.1
  | Asks => x.1 <= y.1
  end.

#[global] Instance before_dec side x y : Decision (before side x y).
Proof. destruct side; simpl; apply _. Defined.

(** Rows with their running total, the total being [acc] before the
    first row. *)
Fixpoint with_cumulative (acc : Qc) (levels : list (Qc * Qc)) : list OrderRow :=
  match levels with
  | [] => []
  | (p, q) :: rest =>
      let acc' := acc + q in
      mkRow p q acc' :: with_cumulative acc' rest
  end.

(** Modelled from the spec: [mapToSortedArray(ledger, side, limit)] of
    [lib/orderbook], not among the sources (the spec's
    [snapshot(orderDirection, limit)]): the entries sorted by price in the
    side's direction, truncated to [limit] entries, each paired with the
    running sum of the quantities, which starts at 0 before the first
    entry. *)
Definition mapToSortedArray (m : gmap Qc Qc) (side : Side) (limit : nat) : list OrderRow :=
  with_cumulative 0 (take limit (merge_sort (before side) (map_to_list m))).

(** ** What the claims say of a ledger and of a snapshot *)

(** The ledger invariant: every level present has a positive quantity. *)
Definition positive_levels (m : gmap Qc Qc) : Prop :=
  map_Forall (fun _ q => 0 < q) m.

(** The sum of the quantities of some rows. *)
Definition total_qty (rows : list OrderRow) : Qc :=
  foldr (fun r acc => qty r + acc) 0 rows.

(** Strict book order between two rows: strictly descending prices for
    bids, strictly ascending prices for asks. *)
Definition strictly_before (side : Side) (r1 r2 : OrderRow) : Prop :=
  match side with
  | Bids => price r2 < price r1
  | Asks => price r1 < price r2
  end.

(** The level a row shows. *)
Definition level_of (r : OrderRow) : Qc * Qc := (price r, qty r).

(** The three numbers of a row as reduced fractions. *)
Definition fractions (r : OrderRow) : Q * Q * Q :=
  (this (price r), this (qty r), this (cum r)).

End OrderbookLib.
Import OrderbookLib.

(* ===================================================================== *)
(** * The [OrderBook] component *)
(* ===================================================================== *)

Module OrderBook.

Local Open Scope Qc_scope.

(** [DepthDelta]: both fields are optional. *)
Record DepthDelta : Type := mkDelta {
  b : option (list Change);
  a : option (list Change)
}.

(** A [useMemo] cell: the value computed last and the dependency it was
    computed for. *)
Record Memo : Type := mkMemo { rows : list OrderRow; deps : nat }.

(** What the component keeps between renders: the two ledger refs (the
    component declares them as maps from the price string of the feed;
    the spec's ledger, followed here, is keyed by the price), the
    [version] and [hoverPrice] states, the [pending] ref, the callbacks
    registered with [requestAnimationFrame] that have not run yet, and
    the cells of the two [useMemo] calls. *)
Record Component : Type := mkComponent {
  bidsRef : gmap Qc Qc;
  asksRef : gmap Qc Qc;
  version : nat;
  hoverPrice : option Qc;
  pending : bool;
  frameCallbacks : nat;
  bidsMemo : Memo;
  asksMemo : Memo
}.

Definition with_ledgers (bs as_ : gmap Qc Qc) (c : Component) : Component :=
  mkComponent bs as_ (version c) (hoverPrice c) (pending c) (frameCallbacks c)
    (bidsMemo c) (asksMemo c).
Definition with_version (v : nat) (c : Component) : Component :=
  mkComponent (bidsRef c) (asksRef c) v (hoverPrice c) (pending c) (frameCallbacks c)
    (bidsMemo c) (asksMemo c).
Definition with_hoverPrice (p : option Qc) (c : Component) : Component :=
  mkComponent (bidsRef c) (asksRef c) (version c) p (pending c) (frameCallbacks c)
    (bidsMemo c) (asksMemo c).
Definition with_pending (x : bool) (c : Component) : Component :=
  mkComponent (bidsRef c) (asksRef c) (version c) (hoverPrice c) x (frameCallbacks c)
    (bidsMemo c) (asksMemo c).
Definition with_frameCallbacks (n : nat) (c : Component) : Component :=
  mkComponent (bidsRef c) (asksRef c) (version c) (hoverPrice c) (pending c) n
    (bidsMemo c) (asksMemo c).
Definition with_memos (bm am : Memo) (c : Component) : Component :=
  mkComponent (bidsRef c) (asksRef c) (version c) (hoverPrice c) (pending c)
    (frameCallbacks c) bm am.

(** [useMemo(() => compute, [dep])] on a later render: the cached value
    when the dependency is the one it was computed for, a fresh value
    otherwise. *)
Definition useMemo (compute : list OrderRow) (dep : nat) (cell : Memo) : Memo :=
  if decide (deps cell = dep) then cell else mkMemo compute dep.

(** The component after its first render: empty ledgers, version 0, and
    both [useMemo] cells computed from them. *)
Definition initial : Component :=
  mkComponent ∅ ∅ 0 None false 0
    (mkMemo (mapToSortedArray ∅ Bids 25) 0) (mkMemo (mapToSortedArray ∅ Asks 25) 0).

(** [scheduleRender]: nothing when a render is pending; otherwise sets
    [pending] and registers one callback for the next frame. *)
Definition scheduleRender (c : Component) : Component :=
  if pending c then c
  else with_frameCallbacks (S (frameCallbacks c)) (with_pending true c).

(** The callback given to [requestAnimationFrame]. *)
Definition renderCallback (c : Component) : Component :=
  with_version (S (version c)) (with_pending false c).

(** A display frame: every registered callback runs once and the
    registry is emptied. *)
Definition animationFrame (c : Component) : Component :=
  with_frameCallbacks 0 (Nat.iter (frameCallbacks c) renderCallback c).

(** [onDepthUpdate]. *)
Definition onDepthUpdate (d : option DepthDelta) (c : Component) : Component :=
  match d with
  | None => c
  | Some d =>
      let bids := applyDepthDelta (bidsRef c) (default [] (b d)) in
      let asks := applyDepthDelta (asksRef c) (default [] (a d)) in
      scheduleRender (with_ledgers bids asks c)
  end.

(** A render after the first: the two [useMemo] calls, both on
    [[version]]. *)
Definition render (c : Component) : Component :=
  with_memos
    (useMemo (mapToSortedArray (bidsRef c) Bids 25) (version c) (bidsMemo c))
    (useMemo (mapToSortedArray (asksRef c) Asks 25) (version c) (asksMemo c))
    c.

(** [bids] and [asks] as the render last done has them. *)
Definition bids (c : Component) : list OrderRow := rows (bidsMemo c).
Definition asks (c : Component) : list OrderRow := rows (asksMemo c).








(** [Math.max] and [Math.min] of two numbers. *)
Definition Qcmax (x y : Qc) : Qc := if decide (x <= y) then y else x.
Definition Qcmin (x y : Qc) : Qc := if decide (x <= y) then x else y.

(** [rows.length ? Math.max(...rows.map((r) => r.cum)) : 1] *)
Definition maxCum (rows : list OrderRow) : Qc :=
  match rows with
  | [] => 1
  | r :: rest => foldl Qcmax (cum r) (cum <$> rest)
  end.

(** [Math.min(100, (r.cum / maxCum) * 100)], for a [maxCum] that is not
    zero. *)
Definition barWidth (r : OrderRow) (maxc : Qc) : Qc :=
  Qcmin (Q2Qc 100) (cum r / maxc * Q2Qc 100).

(** ** What can happen to a mounted component *)

(** A depth event from the hook, a display frame, a change of the row
    under the pointer ([setHoverPrice]), and a render of the component
    function, which React does after a state change. *)
Inductive Event : Type :=
| DepthUpdate (d : option DepthDelta)
| Frame
| Hover (p : option Qc)
| Render.

Definition step (ev : Event) (c : Component) : Component :=
  match ev with
  | DepthUpdate d => onDepthUpdate d c
  | Frame => animationFrame c
  | Hover p => with_hoverPrice p c
  | Render => render c
  end.

Definition run (tr : list Event) (c : Component) : Component :=
  foldl (fun c ev => step ev c) c tr.

(** The callbacks waiting for the next frame are exactly the one that
    [pending] stands for. *)
Definition coalesced (c : Component) : Prop :=
  frameCallbacks c = if pending c then 1%nat else 0%nat.



(** The number of frames of a trace in which the render callback ran:
    the frames that come after a depth event with no frame in between. *)
Fixpoint renders (armed : bool) (tr : list Event) : nat :=
  match tr with
  | [] => 0
  | DepthUpdate None :: rest => renders armed rest
  | DepthUpdate (Some _) :: rest => renders true rest
  | Frame :: rest => (if armed then 1 else 0) + renders false rest
  | Hover _ :: rest | Render :: rest => renders armed rest
  end.

End OrderBook.

(* ===================================================================== *)
(** * The [useBinanceSocket] hook *)
(* ===================================================================== *)

Module BinanceSocket.

Local Open Scope Q_scope.

(** ** Options and the stream address *)

(** [depthInterval?: 100 | 250 | 500] *)
Inductive DepthInterval : Type := Ms100 | Ms250 | Ms500.

Definition interval_text (d : DepthInterval) : string :=
  match d with
  | Ms100 => "100"
  | Ms250 => "250"
  | Ms500 => "500"
  end.

(** [UseBinanceSocketOptions].  Every field is optional; for the two
    callbacks only their presence matters here. *)
Record Options : Type := mkOptions {
  symbol : option string;
  onAggTrade : bool;
  onDepthUpdate : bool;
  combined : option bool;
  depthInterval : option DepthInterval
}.

(** The defaults of the parameter destructuring. *)
Definition symbol_of (o : Options) : string := default "btcusdt" (symbol o).
Definition combined_of (o : Options) : bool := default true (combined o).
Definition depthInterval_of (o : Options) : DepthInterval := default Ms100 (depthInterval o).

(** [toLowerCase], on the ASCII letters. *)
Definition lower_char (c : ascii) : ascii :=
  let n := nat_of_ascii c in
  if (65 <=? n)%nat && (n <=? 90)%nat then ascii_of_nat (n + 32) else c.

Fixpoint toLowerCase (s : string) : string :=
  match s with
  | EmptyString => EmptyString
  | String c rest => String (lower_char c) (toLowerCase rest)
  end.

(** [Array.prototype.join] *)
Fixpoint join (sep : string) (parts : list string) : string :=
  match parts with
  | [] => ""
  | [x] => x
  | x :: rest => x ++ sep ++ join sep rest
  end.

Definition base : string := "wss://stream.binance.com:9443".

(** The two topics of a symbol. *)
Definition aggTrade_topic (s : string) : string := s ++ "@aggTrade".
Definition depth_topic (s : string) (d : DepthInterval) : string :=
  s ++ "@depth@" ++ interval_text d ++ "ms".

Definition createUrl (o : Options) : string :=
  let s := toLowerCase (symbol_of o) in
  if combined_of o then
    let streams := join "/" [aggTrade_topic s; depth_topic s (depthInterval_of o)] in
    base ++ "/stream?streams=" ++ streams
  else base ++ "/ws/" ++ aggTrade_topic s.



(** The options with another [symbol]. *)
Definition with_symbol (x : option string) (o : Options) : Options :=
  mkOptions x (onAggTrade o) (onDepthUpdate o) (combined o) (depthInterval o).



(** ** State of one run of the connection effect *)

Inductive ReadyState : Type := CONNECTING | OPEN | CLOSING | CLOSED.

(** What [JSON.parse(ev.data)] gives: a [SyntaxError] or a value. *)
Inductive Inbound : Type :=
| Undecodable
| Decoded (parsed : json).

(** What the hook does to the outside: sockets it creates and closes,
    timers it sets, console lines, and calls of the two callbacks. *)
Inductive Effect : Type :=
| NewWebSocket (url : string)
| SetTimeoutConnect (delay : float)
| TransportClose (ws : nat)
| ConsoleInfoConnected (url : string)
| ConsoleWarnReconnecting (delay : float)
| ConsoleErrorMalformed
| ConsoleErrorTransport
| CallAggTrade (payload : value)
| CallDepthUpdate (payload : value).

(** The refs ([wsRef], [backoffRef], [closedByUser]), the effect's local
    [mounted], the sockets created so far with their [readyState] (a
    socket is named by its position), and the number of
    [setTimeout(connect, t)] timers that have not fired yet. *)
Record Hook : Type := mkHook {
  wsRef : option nat;
  backoffRef : float;
  closedByUser : bool;
  mounted : bool;
  sockets : list ReadyState;
  timers : nat
}.

Definition with_wsRef (w : option nat) (h : Hook) : Hook :=
  mkHook w (backoffRef h) (closedByUser h) (mounted h) (sockets h) (timers h).
Definition with_backoff (x : float) (h : Hook) : Hook :=
  mkHook (wsRef h) x (closedByUser h) (mounted h) (sockets h) (timers h).
Definition with_closedByUser (x : bool) (h : Hook) : Hook :=
  mkHook (wsRef h) (backoffRef h) x (mounted h) (sockets h) (timers h).
Definition with_mounted (x : bool) (h : Hook) : Hook :=
  mkHook (wsRef h) (backoffRef h) (closedByUser h) x (sockets h) (timers h).
Definition with_sockets (x : list ReadyState) (h : Hook) : Hook :=
  mkHook (wsRef h) (backoffRef h) (closedByUser h) (mounted h) x (timers h).
Definition with_timers (x : nat) (h : Hook) : Hook :=
  mkHook (wsRef h) (backoffRef h) (closedByUser h) (mounted h) (sockets h) x.

(** [WebSocket.prototype.close]: starts closing a socket that is
    connecting or open, and does nothing otherwise. *)
Definition closing (r : ReadyState) : ReadyState :=
  match r with
  | CONNECTING | OPEN => CLOSING
  | CLOSING | CLOSED => r
  end.

Definition transport_close (ws : nat) (h : Hook) : Hook :=
  with_sockets (alter closing ws (sockets h)) h.

Definition set_ready (ws : nat) (r : ReadyState) (h : Hook) : Hook :=
  with_sockets (<[ws := r]> (sockets h)) h.

(** ** The handlers *)

(** [connect] *)
Definition connect (o : Options) (h : Hook) : Hook * list Effect :=
  if negb (mounted h) then (h, [])
  else
    let url := createUrl o in
    let ws := length (sockets h) in
    (with_wsRef (Some ws) (with_sockets (sockets h ++ [CONNECTING]) h),
     [NewWebSocket url]).

(** [ws.onopen] *)
Definition ws_onopen (o : Options) (h : Hook) : Hook * list Effect :=
  (with_backoff 500%float h, [ConsoleInfoConnected (createUrl o)]).

(** The first statements of the [try] block: the payload of a decoded
    message, out of its envelope when it has one. *)
Definition unwrap (parsed : json) : completion value :=
  match js_in "stream" parsed with
  | TypeError => TypeError
  | Normal wrapped => Normal (if wrapped then get "data" parsed else Some parsed)
  end.

(** The rest of the [try] block.  A callback is taken to return
    normally. *)
Definition dispatch (o : Options) (payload : value) : list Effect :=
  let e := opt_get "e" payload in
  if negb (truthy e) then []
  else if is_str "aggTrade" e then
    (if onAggTrade o then [CallAggTrade payload] else [])
  else if is_str "depthUpdate" e then
    (if onDepthUpdate o then [CallDepthUpdate payload] else [])
  else [].

(** [ws.onmessage]: whatever is thrown inside [try] ends in the
    [console.error] of the [catch]. *)
Definition ws_onmessage (o : Options) (m : Inbound) (h : Hook) : Hook * list Effect :=
  match m with
  | Undecodable => (h, [ConsoleErrorMalformed])
  | Decoded parsed =>
      match unwrap parsed with
      | TypeError => (h, [ConsoleErrorMalformed])
      | Normal payload => (h, dispatch o payload)
      end
  end.

(** [ws.onerror] *)
Definition ws_onerror (h : Hook) : Hook * list Effect :=
  (h, [ConsoleErrorTransport]).

(** [Math.min(y, 30000)] on binary64 numbers: the smaller of the two,
    and [y] itself when it is 30000 or not a number. *)
Definition min_30000 (y : float) : float :=
  if PrimFloat.ltb 30000 y then 30000%float else y.

(** [Math.min(backoffRef.current * 1.8, 30000)]: the product is the
    binary64 product, rounded to nearest. *)
Definition next_backoff (x : float) : float := min_30000 (x * 1.8)%float.

(** [ws.onclose] *)
Definition ws_onclose (h : Hook) : Hook * list Effect :=
  let h := with_wsRef None h in
  if closedByUser h || negb (mounted h) then (h, [])
  else
    let t := backoffRef h in
    (with_timers (S (timers h)) (with_backoff (next_backoff t) h),
     [ConsoleWarnReconnecting t; SetTimeoutConnect t]).

(** The [close] the hook returns. *)
Definition close (h : Hook) : Hook * list Effect :=
  let h := with_closedByUser true h in
  match wsRef h with
  | Some ws => (transport_close ws h, [TransportClose ws])
  | None => (h, [])
  end.

(** The cleanup of the effect. *)
Definition cleanup (h : Hook) : Hook * list Effect :=
  let h := with_closedByUser true (with_mounted false h) in
  match wsRef h with
  | Some ws =>
      match sockets h !! ws with
      | Some OPEN => (with_wsRef None (transport_close ws h), [TransportClose ws])
      | _ => (with_wsRef None h, [])
      end
  | None => (with_wsRef None h, [])
  end.

(** The body of the effect, on the refs as first created. *)
Definition mount (o : Options) : Hook * list Effect :=
  connect o (mkHook None 500%float false true [] 0).

(** ** What can happen to a mounted hook *)

Inductive Event : Type :=
| SocketOpens (ws : nat)
| SocketMessage (ws : nat) (m : Inbound)
| SocketErrors (ws : nat)
| SocketCloses (ws : nat)
| TimerFires
| CloseCalled
| Unmounted.

(** One event.  The transport fires [open] on a connecting socket,
    [message] on an open one, [close] once on a socket that is not yet
    closed; a timer fires if one is pending.  An event that cannot
    happen in the state leaves it as it is. *)
Definition step (o : Options) (ev : Event) (h : Hook) : Hook * list Effect :=
  match ev with
  | SocketOpens ws =>
      match sockets h !! ws with
      | Some CONNECTING => ws_onopen o (set_ready ws OPEN h)
      | _ => (h, [])
      end
  | SocketMessage ws m =>
      match sockets h !! ws with
      | Some OPEN => ws_onmessage o m h
      | _ => (h, [])
      end
  | SocketErrors ws =>
      match sockets h !! ws with
      | Some CLOSED | None => (h, [])
      | Some _ => ws_onerror h
      end
  | SocketCloses ws =>
      match sockets h !! ws with
      | Some CLOSED | None => (h, [])
      | Some _ => ws_onclose (set_ready ws CLOSED h)
      end
  | TimerFires =>
      match timers h with
      | O => (h, [])
      | S n => connect o (with_timers n h)
      end
  | CloseCalled => close h
  | Unmounted => cleanup h
  end.

Fixpoint run (o : Options) (tr : list Event) (h : Hook) : Hook * list Effect :=
  match tr with
  | [] => (h, [])
  | ev :: rest =>
      let '(h1, e1) := step o ev h in
      let '(h2, e2) := run o rest h1 in
      (h2, (e1 ++ e2)%list)
  end.

(** The delays of the timers set, in the order they were set. *)
Definition scheduled_delays (es : list Effect) : list float :=
  omap (fun e => match e with SetTimeoutConnect t => Some t | _ => None end) es.

(** The addresses of the sockets created. *)
Definition connections (es : list Effect) : list string :=
  omap (fun e => match e with NewWebSocket url => Some url | _ => None end) es.

(** The callbacks called. *)
Definition is_callback (e : Effect) : bool :=
  match e with
  | CallAggTrade _ | CallDepthUpdate _ => true
  | _ => false
  end.

Definition is_diagnostic (e : Effect) : bool :=
  match e with
  | ConsoleErrorMalformed => true
  | _ => false
  end.

Definition is_open_event (ev : Event) : bool :=
  match ev with
  | SocketOpens _ => true
  | _ => false
  end.

(** [n] connection attempts that fail one after the other, the first on
    socket [ws]: the socket reports an error and closes without having
    opened, and the timer set for the reconnection fires, which creates
    the next socket. *)
Fixpoint failed_attempts (ws n : nat) : list Event :=
  match n with
  | O => []
  | S n' => SocketErrors ws :: SocketCloses ws :: TimerFires :: failed_attempts (S ws) n'
  end.


(** The sockets that are not closed yet. *)
Definition live (r : ReadyState) : bool :=
  match r with
  | CLOSED => false
  | _ => true
  end.

Definition live_count (l : list ReadyState) : nat := length (filter (fun r => live r = true) l).

(** At most one socket is alive, and no reconnection is pending while
    one is. *)
Definition single_connection (h : Hook) : Prop :=
  (live_count (sockets h) + timers h <= 1)%nat.

(** [wsRef], when it is set, holds a socket that is not closed. *)
Definition wsRef_alive (h : Hook) : Prop :=
  forall ws, wsRef h = Some ws -> exists r, sockets h !! ws = Some r /\ live r = true.

(** The value of [backoffRef] after [n] reconnections were scheduled
    since it last was 500. *)
Definition nth_backoff (n : nat) : float := Nat.iter n next_backoff 500%float.

(** ** The delays as real numbers *)

(** The rational number a finite binary64 number stands for. *)
Definition value_of (x : float) : option Q :=
  match Prim2SF x with
  | S754_zero _ => Some 0
  | S754_finite s m e => Some ((if s then -1 else 1) * (Z.pos m # 1) * 2 ^ e)
  | S754_infinity _ | S754_nan => None
  end.

(** The delay the specification gives for the [N]-th consecutive
    reconnection, [min (500 * 1.8 ^ (N - 1)) 30000], over the rationals. *)
Definition formula_delay (N : nat) : Q := Qmin (500 * 1.8 ^ (Z.of_nat N - 1)) 30000.

(** The same recurrence as [next_backoff], without rounding. *)
Definition exact_next (x : Q) : Q := Qmin (x * 1.8) 30000.

End BinanceSocket.

(* ===================================================================== *)
(** * The ledger and its snapshots *)
(* ===================================================================== *)

Module LedgerFacts.

Local Open Scope list_scope.
Local Open Scope Qc_scope.

(** Two canonical rationals with the same reduced fraction are equal. *)
Lemma Qc_this_inj (x y : Qc) : this x = this y -> x = y.
Proof. intros E. apply Qc_is_canon. rewrite E. reflexivity. Qed.

Lemma set_level_positive p q m :
  positive_levels m -> positive_levels (set_level p q m).
Proof.
  unfold set_level, positive_levels. intros Hm.
  destruct (decide (0 < q)) as [Hq|_].
  - apply map_Forall_insert_2; assumption.
  - destruct (decide (q = 0)); [apply map_Forall_delete|]; assumption.
Qed.

Lemma set_levels_positive ops : forall m,
  positive_levels m -> positive_levels (set_levels ops m).
Proof.
  unfold set_levels. induction ops as [|op ops IH]; intros m Hm; simpl.
  - assumption.
  - apply IH, set_level_positive, Hm.
Qed.

Lemma apply_change_positive m c :
  positive_levels m -> positive_levels (apply_change m c).
Proof.
  intros Hm. unfold apply_change.
  destruct (parse_decimal c.1) as [p|]; [|assumption].
  destruct (parse_decimal c.2) as [q|]; [|assumption].
  destruct (decide (p < 0)); [assumption|].
  destruct (decide (q < 0)); [assumption|].
  apply set_level_positive, Hm.
Qed.

Lemma applyDepthDelta_positive changes : forall m,
  positive_levels m -> positive_levels (applyDepthDelta m changes).
Proof.
  unfold applyDepthDelta. induction changes as [|c cs IH]; intros m Hm; simpl.
  - assumption.
  - apply IH, apply_change_positive, Hm.
Qed.

Lemma set_zero_absent p m : m !! p = None -> set_level p 0 m = m.
Proof.
  intros Hp. unfold set_level.
  destruct (decide (0 < 0)) as [H|_]; [exfalso; exact (Qclt_not_eq _ _ H eq_refl)|].
  destruct (decide (0 = 0 :> Qc)) as [_|H]; [|congruence].
  apply delete_id, Hp.
Qed.

Lemma set_zero_after_set p q m :
  0 < q -> set_level p 0 (set_level p q m) !! p = None.
Proof.
  intros Hq. unfold set_level at 1.
  destruct (decide (0 < 0)) as [H|_]; [exfalso; exact (Qclt_not_eq _ _ H eq_refl)|].
  destruct (decide (0 = 0 :> Qc)) as [_|H]; [|congruence].
  apply lookup_delete_eq.
Qed.

(** C6: the ledger never holds a level whose quantity is zero or
    negative, whatever sequence of [set] operations or batch of changes
    is applied to it; setting a quantity of 0 at a price that is absent
    leaves the ledger as it is; and setting 0 at a price after a positive
    quantity was set there leaves the price absent. *)
Theorem ledger_holds_only_positive_quantities
  (m : gmap Qc Qc) (ops : list (Qc * Qc)) (changes : list Change) (p q : Qc) :
  positive_levels m ->
  (forall p' q', set_levels ops m !! p' = Some q' -> 0 < q') /\
  (forall p' q', applyDepthDelta m changes !! p' = Some q' -> 0 < q') /\
  (m !! p = None -> set_level p 0 m = m) /\
  (0 < q -> set_level p 0 (set_level p q m) !! p = None).
Proof.
  intros Hm. split; [|split; [|split]].
  - intros p' q'. apply (set_levels_positive ops m Hm).
  - intros p' q'. apply (applyDepthDelta_positive changes m Hm).
  - apply set_zero_absent.
  - apply set_zero_after_set.
Qed.

Lemma ledger_holds_only_positive_quantities_witness :
  let m : gmap Qc Qc := {[ Q2Qc 100 := Q2Qc 2 ]} in
  let ops := [(Q2Qc 99, Q2Qc 3); (Q2Qc 100, 0); (Q2Qc 98, - 1)] in
  let changes := [("99.50", "1"); ("100.00", "0"); ("98", "-1"); ("x", "1")]%string in
  positive_levels m /\
  (forall p' q', set_levels ops m !! p' = Some q' -> 0 < q') /\
  (forall p' q', applyDepthDelta m changes !! p' = Some q' -> 0 < q') /\
  set_level (Q2Qc 99) 0 m = m /\
  set_level (Q2Qc 99) 0 (set_level (Q2Qc 99) (Q2Qc 3) m) !! Q2Qc 99 = None.
Proof.
  intros m ops changes.
  assert (Hm : positive_levels m).
  { apply map_Forall_singleton. reflexivity. }
  destruct (ledger_holds_only_positive_quantities m ops changes (Q2Qc 99) (Q2Qc 3) Hm)
    as (H1 & H2 & H3 & H4).
  split; [exact Hm|].
  split; [exact H1|].
  split; [exact H2|].
  split; [apply H3; vm_compute; reflexivity|apply H4; reflexivity].
Defined.

(** ** Snapshots are sorted, truncated and cumulative *)

#[local] Instance before_total side : Total (before side).
Proof.
  intros x y. destruct side; simpl;
    destruct (Qclt_le_dec x.1 y.1) as [H|H]; auto using Qclt_le_weak.
Qed.

#[local] Instance before_trans side : Transitive (before side).
Proof.
  intros x y z. destruct side; simpl; intros H1 H2; eapply Qcle_trans; eassumption.
Qed.

Lemma strict_of_before side (x y : Qc * Qc) :
  before side x y -> x.1 <> y.1 -> strictly_before side (mkRow x.1 x.2 0) (mkRow y.1 y.2 0).
Proof.
  destruct side; simpl; intros Hle Hne;
    destruct (Qcle_lt_or_eq _ _ Hle) as [?|E]; congruence.
Qed.

Lemma strictly_before_prices side r1 r2 r1' r2' :
  price r1 = price r1' -> price r2 = price r2' ->
  strictly_before side r1 r2 -> strictly_before side r1' r2'.
Proof. destruct side; simpl; congruence. Qed.

Lemma StronglySorted_take_levels {A} (R : relation A) n : forall l,
  StronglySorted R l -> StronglySorted R (take n l).
Proof.
  induction n as [|n IH]; intros l Hl; [rewrite take_0; constructor|].
  destruct Hl as [|x l Hl Hx]; simpl; [constructor|].
  constructor; [apply IH, Hl|]. apply Forall_take, Hx.
Qed.

Lemma level_of_with_cumulative levels : forall acc,
  level_of <$> with_cumulative acc levels = levels.
Proof.
  induction levels as [|[p q] rest IH]; intros acc; simpl; [reflexivity|].
  unfold level_of at 1; simpl. f_equal. apply IH.
Qed.

Lemma length_with_cumulative levels : forall acc,
  length (with_cumulative acc levels) = length levels.
Proof.
  intros acc. rewrite <- (level_of_with_cumulative levels acc) at 2.
  symmetry. apply length_fmap.
Qed.

(** Rows are in strict book order as soon as their levels are in book
    order and no price occurs twice. *)
Lemma rows_strictly_sorted side (rows : list OrderRow) :
  StronglySorted (before side) (level_of <$> rows) ->
  NoDup (price <$> rows) ->
  StronglySorted (strictly_before side) rows.
Proof.
  induction rows as [|r rows IH]; simpl; intros Hs Hnd; [constructor|].
  apply StronglySorted_inv in Hs as [Hs Hr].
  apply NoDup_cons in Hnd as [Hnotin Hnd].
  constructor; [apply IH; assumption|].
  apply Forall_forall. intros r' Hr'.
  rewrite Forall_fmap, Forall_forall in Hr. specialize (Hr r' Hr'). simpl in Hr.
  assert (Hne : price r <> price r').
  { intros E. apply Hnotin. rewrite E. apply list_elem_of_fmap_2, Hr'. }
  eapply strictly_before_prices; [| |apply (strict_of_before side (level_of r) (level_of r') Hr Hne)];
    reflexivity.
Qed.

Lemma snapshot_levels m side limit :
  level_of <$> mapToSortedArray m side limit
  = take limit (merge_sort (before side) (map_to_list m)).
Proof. apply level_of_with_cumulative. Qed.

Lemma snapshot_sorted m side limit :
  StronglySorted (strictly_before side) (mapToSortedArray m side limit).
Proof.
  apply rows_strictly_sorted.
  - rewrite snapshot_levels. apply StronglySorted_take_levels.
    apply StronglySorted_merge_sort; apply _.
  - assert (E : price <$> mapToSortedArray m side limit
                = (level_of <$> mapToSortedArray m side limit).*1).
    { rewrite <- list_fmap_compose. reflexivity. }
    rewrite E, snapshot_levels, fmap_take.
    eapply sublist_NoDup; [|apply sublist_take].
    rewrite (merge_sort_Permutation (before side) (map_to_list m)).
    apply NoDup_fst_map_to_list.
Qed.

Lemma snapshot_length m side limit :
  length (mapToSortedArray m side limit) = limit `min` size m.
Proof.
  unfold mapToSortedArray. rewrite length_with_cumulative, length_take.
  rewrite (merge_sort_Permutation (before side) (map_to_list m)), length_map_to_list.
  reflexivity.
Qed.

Lemma snapshot_rows_in_ledger m side limit r :
  r ∈ mapToSortedArray m side limit -> m !! price r = Some (qty r).
Proof.
  intros Hr. apply elem_of_map_to_list.
  rewrite <- (merge_sort_Permutation (before side) (map_to_list m)).
  apply (list_elem_of_fmap_2 level_of) in Hr. rewrite snapshot_levels in Hr.
  apply elem_of_take in Hr as (i & Hi & _). eapply list_elem_of_lookup_2, Hi.
Qed.

Lemma with_cumulative_running levels : forall acc i r,
  with_cumulative acc levels !! i = Some r ->
  cum r = acc + total_qty (take (S i) (with_cumulative acc levels)).
Proof.
  induction levels as [|[p q] rest IH]; intros acc i r; simpl; [discriminate|].
  destruct i as [|i]; simpl.
  - intros [= <-]. simpl. rewrite Qcplus_0_r. reflexivity.
  - intros Hr. rewrite (IH _ _ _ Hr). simpl. symmetry. apply Qcplus_assoc.
Qed.

Lemma snapshot_cumulative m side limit i r :
  mapToSortedArray m side limit !! i = Some r ->
  cum r = total_qty (take (S i) (mapToSortedArray m side limit)).
Proof.
  intros Hr. unfold mapToSortedArray in *.
  rewrite (with_cumulative_running _ _ _ _ Hr). apply Qcplus_0_l.
Qed.

Lemma rows_ext (l1 : list OrderRow) : forall l2,
  fractions <$> l1 = fractions <$> l2 -> l1 = l2.
Proof.
  induction l1 as [|[p q c] l1 IH]; intros [|[p' q' c'] l2]; simpl; try discriminate.
  - reflexivity.
  - unfold fractions at 1 3; simpl. intros [= Hp Hq Hc Hl].
    rewrite (Qc_this_inj _ _ Hp), (Qc_this_inj _ _ Hq), (Qc_this_inj _ _ Hc), (IH _ Hl).
    reflexivity.
Qed.

(** C5: a snapshot is in strict book order (prices strictly descending
    for bids, strictly ascending for asks), has at most [limit] rows, each
    of them a level of the ledger, and the cumulative of a row is the sum
    of the quantities from the first row of the snapshot to that row.
    A bid ledger given the changes 100.00 -> 2 and 99.50 -> 1 has the
    snapshot (100, 2, 2), (99.5, 1, 3), and after the change 100.00 -> 0
    the snapshot (99.5, 1, 1). *)
Theorem snapshot_sorted_truncated_cumulative
  (m : gmap Qc Qc) (side : Side) (limit : nat) :
  let rows := mapToSortedArray m side limit in
  let two := applyDepthDelta ∅ [("100.00", "2"); ("99.50", "1")]%string in
  StronglySorted (strictly_before side) rows /\
  length rows = limit `min` size m /\
  (length rows <= limit)%nat /\
  (forall r, r ∈ rows -> m !! price r = Some (qty r)) /\
  (forall i r, rows !! i = Some r -> cum r = total_qty (take (S i) rows)) /\
  mapToSortedArray two Bids 25
  = [mkRow (Q2Qc 100) (Q2Qc 2) (Q2Qc 2); mkRow (Q2Qc 99.5) (Q2Qc 1) (Q2Qc 3)] /\
  mapToSortedArray (applyDepthDelta two [("100.00", "0")]%string) Bids 25
  = [mkRow (Q2Qc 99.5) (Q2Qc 1) (Q2Qc 1)].
Proof.
  intros rows two. subst rows.
  split; [apply snapshot_sorted|].
  split; [apply snapshot_length|].
  split; [rewrite snapshot_length; apply Nat.le_min_l|].
  split; [intros r; apply snapshot_rows_in_ledger|].
  split; [intros i r; apply snapshot_cumulative|].
  split; apply rows_ext; vm_compute; reflexivity.
Qed.

End LedgerFacts.

(* ===================================================================== *)
(** * The component: top of book, render coalescing, depth events *)
(* ===================================================================== *)

Module ComponentFacts.

Import OrderBook.
Local Open Scope list_scope.
Local Open Scope Qc_scope.



(** ** Render coalescing *)

Lemma scheduleRender_coalesced c : coalesced c -> coalesced (scheduleRender c).
Proof.
  unfold coalesced, scheduleRender. destruct (pending c) eqn:E; simpl.
  - rewrite E. trivial.
  - intros ->. reflexivity.
Qed.

(** What a frame does to a component whose callbacks are coalesced. *)
Lemma animationFrame_fields c :
  coalesced c ->
  bidsRef (animationFrame c) = bidsRef c /\
  asksRef (animationFrame c) = asksRef c /\
  version (animationFrame c) = (version c + (if pending c then 1 else 0))%nat /\
  pending (animationFrame c) = false /\
  frameCallbacks (animationFrame c) = 0%nat /\
  bidsMemo (animationFrame c) = bidsMemo c /\
  asksMemo (animationFrame c) = asksMemo c.
Proof.
  unfold coalesced, animationFrame. destruct c as [bs as_ v hp p n bm am]; simpl.
  destruct p; intros ->; simpl; repeat split; lia.
Qed.

Lemma step_coalesced ev c : coalesced c -> coalesced (step ev c).
Proof.
  intros Hc. destruct ev as [[d|]| |p|]; simpl.
  - apply scheduleRender_coalesced. exact Hc.
  - exact Hc.
  - destruct (animationFrame_fields c Hc) as (_ & _ & _ & Hp & Hn & _).
    unfold coalesced. rewrite Hp, Hn. reflexivity.
  - exact Hc.
  - exact Hc.
Qed.

Lemma run_coalesced tr : forall c, coalesced c -> coalesced (run tr c).
Proof.
  unfold run. induction tr as [|ev tr IH]; intros c Hc; simpl; [exact Hc|].
  apply IH, step_coalesced, Hc.
Qed.

Lemma initial_coalesced : coalesced initial.
Proof. reflexivity. Qed.

Lemma onDepthUpdate_while_pending d c :
  pending c = true ->
  frameCallbacks (onDepthUpdate d c) = frameCallbacks c /\
  pending (onDepthUpdate d c) = true.
Proof.
  intros Hp. destruct d as [d|]; simpl; [|split; [reflexivity|exact Hp]].
  unfold scheduleRender; simpl. rewrite Hp. simpl. split; [reflexivity|exact Hp].
Qed.

(** C7: in every state the component can reach, at most one render
    callback is waiting for the next frame; a [scheduleRender] or a depth
    event while one is waiting registers nothing more; and a frame runs
    the waiting callback exactly once: the version goes up by one when a
    render was pending and stays as it is otherwise, and nothing is left
    waiting. *)
Theorem renders_are_coalesced (tr : list Event) :
  let c := run tr initial in
  (frameCallbacks c <= 1)%nat /\
  (pending c = true ->
     frameCallbacks c = 1%nat /\ scheduleRender c = c /\
     forall d, frameCallbacks (onDepthUpdate d c) = 1%nat /\
               pending (onDepthUpdate d c) = true) /\
  (pending c = false -> frameCallbacks c = 0%nat) /\
  (frameCallbacks (scheduleRender c) = 1)%nat /\
  version (animationFrame c) = (version c + (if pending c then 1 else 0))%nat /\
  pending (animationFrame c) = false /\
  frameCallbacks (animationFrame c) = 0%nat /\
  version (animationFrame (animationFrame c)) = version (animationFrame c).
Proof.
  intros c. assert (Hc : coalesced c) by apply run_coalesced, initial_coalesced.
  pose proof (scheduleRender_coalesced c Hc) as Hs.
  pose proof (step_coalesced Frame c Hc) as Hc'. simpl in Hc'.
  destruct (animationFrame_fields c Hc) as (_ & _ & Hv & Hp & Hn & _).
  destruct (animationFrame_fields _ Hc') as (_ & _ & Hv' & _).
  rewrite Hv', Hp, Hv, Hn.
  unfold coalesced in Hc, Hs.
  split; [rewrite Hc; destruct (pending c); lia|].
  split.
  { intros Hpc. rewrite Hpc in Hc.
    split; [exact Hc|]. split; [unfold scheduleRender; rewrite Hpc; reflexivity|].
    intros d. rewrite <- Hc. apply onDepthUpdate_while_pending, Hpc. }
  split; [intros Hpc; rewrite Hpc in Hc; exact Hc|].
  split.
  { unfold scheduleRender in *. destruct (pending c); simpl in *; assumption. }
  repeat split; lia.
Qed.

Lemma renders_are_coalesced_witness :
  let d := Some (mkDelta (Some [("100.00", "2")]%string) None) in
  let c := run [DepthUpdate d; DepthUpdate d; DepthUpdate d] initial in
  pending c = true /\ frameCallbacks c = 1%nat /\ scheduleRender c = c /\
  version (animationFrame c) = 1%nat.
Proof.
  intros d c.
  destruct (renders_are_coalesced [DepthUpdate d; DepthUpdate d; DepthUpdate d])
    as (_ & H2 & _ & _ & H5 & _).
  destruct (H2 eq_refl) as (Hn & Hs & _).
  split; [reflexivity|]. split; [exact Hn|]. split; [exact Hs|exact H5].
Defined.

(** ** Depth events *)

Lemma scheduleRender_ledgers c :
  bidsRef (scheduleRender c) = bidsRef c /\ asksRef (scheduleRender c) = asksRef c /\
  version (scheduleRender c) = version c.
Proof. unfold scheduleRender. destruct (pending c); repeat split. Qed.

(** C10: a null depth event changes nothing, neither ledger nor the
    pending render; a depth event whose [b] (or [a]) is missing is
    handled as the same event with an empty list there: that side's
    ledger is left as it is and the other side's changes are applied. *)
Theorem null_event_and_missing_sides (c : Component) (bs as_ : option (list Change)) :
  onDepthUpdate None c = c /\
  onDepthUpdate (Some (mkDelta None as_)) c = onDepthUpdate (Some (mkDelta (Some []) as_)) c /\
  onDepthUpdate (Some (mkDelta bs None)) c = onDepthUpdate (Some (mkDelta bs (Some []))) c /\
  bidsRef (onDepthUpdate (Some (mkDelta None as_)) c) = bidsRef c /\
  asksRef (onDepthUpdate (Some (mkDelta None as_)) c)
    = applyDepthDelta (asksRef c) (default [] as_) /\
  asksRef (onDepthUpdate (Some (mkDelta bs None)) c) = asksRef c /\
  bidsRef (onDepthUpdate (Some (mkDelta bs None)) c)
    = applyDepthDelta (bidsRef c) (default [] bs).
Proof.
  split; [reflexivity|]. split; [reflexivity|]. split; [reflexivity|].
  unfold onDepthUpdate; simpl.
  repeat split;
    match goal with
    | |- context [scheduleRender ?x] =>
        destruct (scheduleRender_ledgers x) as (Hb & Ha & _); simpl in Hb, Ha
    end; assumption.
Qed.

(** ** Top of book *)











End ComponentFacts.

(* ===================================================================== *)
(** * The hook: reconnection, routing, addresses *)
(* ===================================================================== *)

Module SocketFacts.

Import BinanceSocket.
Local Open Scope list_scope.
Local Open Scope Q_scope.

(** ** The recurrence without rounding *)


#[local] Instance exact_next_proper : Proper (Qeq ==> Qeq) exact_next.
Proof. intros x y E. unfold exact_next. rewrite E. reflexivity. Qed.




(** ** The recurrence on binary64 numbers *)

Lemma nth_backoff_capped (m : nat) : nth_backoff (7 + m) = 30000%float.
Proof.
  induction m as [|m IH].
  - vm_compute. reflexivity.
  - rewrite Nat.add_succ_r.
    change (nth_backoff (S (7 + m))) with (next_backoff (nth_backoff (7 + m))).
    rewrite IH. vm_compute. reflexivity.
Qed.


(** ** Traces *)

Lemma run_cons o ev rest h :
  run o (ev :: rest) h
  = ((run o rest (step o ev h).1).1, (step o ev h).2 ++ (run o rest (step o ev h).1).2).
Proof.
  simpl. destruct (step o ev h) as [h1 e1]; simpl.
  destruct (run o rest h1) as [h2 e2]; reflexivity.
Qed.


Lemma scheduled_delays_app es1 es2 :
  scheduled_delays (es1 ++ es2) = scheduled_delays es1 ++ scheduled_delays es2.
Proof. apply omap_app. Qed.

Lemma connections_app es1 es2 :
  connections (es1 ++ es2) = connections es1 ++ connections es2.
Proof. apply omap_app. Qed.

(** What a message can make the hook do: nothing, one diagnostic, or one
    call of a callback; the refs are left as they are. *)
Lemma dispatch_effects o payload :
  dispatch o payload = [] \/
  dispatch o payload = [CallAggTrade payload] \/
  dispatch o payload = [CallDepthUpdate payload].
Proof.
  unfold dispatch.
  destruct (negb (truthy (opt_get "e" payload))); [auto|].
  destruct (is_str "aggTrade" (opt_get "e" payload)).
  { destruct (onAggTrade o); auto. }
  destruct (is_str "depthUpdate" (opt_get "e" payload)); [|auto].
  destruct (onDepthUpdate o); auto.
Qed.

Lemma ws_onmessage_effects o m h :
  (ws_onmessage o m h).1 = h /\
  ((ws_onmessage o m h).2 = [] \/
   (ws_onmessage o m h).2 = [ConsoleErrorMalformed] \/
   exists payload,
     (ws_onmessage o m h).2 = [CallAggTrade payload] \/
     (ws_onmessage o m h).2 = [CallDepthUpdate payload]).
Proof.
  destruct m as [|parsed]; simpl; [auto|].
  destruct (unwrap parsed) as [payload|]; simpl; [|auto].
  split; [reflexivity|].
  destruct (dispatch_effects o payload) as [->|[->| ->]]; eauto.
Qed.

Lemma ws_onmessage_quiet o m h :
  scheduled_delays (ws_onmessage o m h).2 = [] /\
  connections (ws_onmessage o m h).2 = [].
Proof.
  destruct (ws_onmessage_effects o m h) as (_ & [->|[->|(p & [->| ->])]]);
    split; reflexivity.
Qed.

(** [ws.onclose] either schedules nothing and leaves the backoff, or
    schedules one reconnection after the current backoff and raises it. *)
Lemma ws_onclose_delays h :
  (scheduled_delays (ws_onclose h).2 = [] /\
   backoffRef (ws_onclose h).1 = backoffRef h /\
   timers (ws_onclose h).1 = timers h) \/
  (closedByUser h = false /\ mounted h = true /\
   (ws_onclose h).2 = [ConsoleWarnReconnecting (backoffRef h); SetTimeoutConnect (backoffRef h)] /\
   backoffRef (ws_onclose h).1 = next_backoff (backoffRef h) /\
   timers (ws_onclose h).1 = S (timers h)).
Proof.
  unfold ws_onclose; simpl.
  destruct (closedByUser h), (mounted h); simpl; auto 10.
Qed.

Lemma step_delays o ev h :
  is_open_event ev = false ->
  (scheduled_delays (step o ev h).2 = [] /\
   backoffRef (step o ev h).1 = backoffRef h) \/
  (scheduled_delays (step o ev h).2 = [backoffRef h] /\
   backoffRef (step o ev h).1 = next_backoff (backoffRef h)).
Proof.
  destruct ev as [ws|ws m|ws|ws| | | ]; simpl; intros Hev; try discriminate.
  - destruct (sockets h !! ws) as [[]|]; auto.
    left. split; [apply ws_onmessage_quiet|].
    rewrite (proj1 (ws_onmessage_effects o m h)). reflexivity.
  - destruct (sockets h !! ws) as [[]|]; auto.
  - destruct (sockets h !! ws) as [[]|]; auto;
      match goal with
      | |- context [ws_onclose ?x] =>
          destruct (ws_onclose_delays x) as [(H1 & H2 & _)|(_ & _ & H1 & H2 & _)];
          [left; split; [exact H1|exact H2]
          |right; rewrite H1; split; [reflexivity|exact H2]]
      end.
  - destruct (timers h) as [|n]; [auto|].
    unfold connect; simpl. destruct (mounted h); simpl; auto.
  - unfold close; simpl. destruct (wsRef h); simpl; auto.
  - unfold cleanup; simpl. destruct (wsRef h) as [ws|]; simpl; [|auto].
    destruct (sockets h !! ws) as [[]|]; simpl; auto.
Qed.


(** ** Attempts that fail one after the other *)








(** C2, as stated, fails: the fifth delay is the binary64 number that
    four roundings of the product by 1.8 give, which is not
    [500 * 1.8 ^ 4 = 5248.8] but exceeds it by [1 / 5497558138880]. *)
Lemma fifth_delay_is_above_the_formula :
  let o := mkOptions None false false None None in
  let d := nth_backoff 4 in
  let q := 5771116631870669 # 1099511627776 in
  scheduled_delays (run o (failed_attempts 0 5) (mount o).1).2 !! 4%nat = Some d /\
  value_of d = Some q /\
  formula_delay 5 == 5248.8 /\
  q - formula_delay 5 == 1 # 5497558138880.
Proof.
  intros o d q.
  split; [vm_compute; reflexivity|].
  split; [vm_compute; reflexivity|].
  split; vm_compute; reflexivity.
Qed.



(** ** Closing by hand *)

(** C1 on the code: the hook is mounted with its defaults, its socket
    closes unexpectedly (a reconnection is scheduled), [close] is called
    while that timer is pending, and the timer fires.  [closedByUser] is
    then set, the timer is still pending, and its firing creates a new
    socket: [connect] looks at [mounted] only. *)
Theorem close_then_pending_timer_reconnects :
  let o := mkOptions None false false None None in
  let h := (run o [SocketCloses 0; CloseCalled] (mount o).1).1 in
  closedByUser h = true /\ timers h = 1%nat /\ wsRef h = None /\
  (step o TimerFires h).2
  = [NewWebSocket "wss://stream.binance.com:9443/stream?streams=btcusdt@aggTrade/btcusdt@depth@100ms"] /\
  wsRef (step o TimerFires h).1 = Some 1%nat /\
  sockets (step o TimerFires h).1 = [CLOSED; CONNECTING].
Proof. repeat split. Qed.

(** ** Messages *)


Lemma unwrap_primitive parsed :
  (forall ms, parsed <> JObj ms) -> (forall items, parsed <> JArr items) ->
  unwrap parsed = TypeError.
Proof.
  intros Ho Ha. destruct parsed; try reflexivity.
  - exfalso. eapply Ha. reflexivity.
  - exfalso. eapply Ho. reflexivity.
Qed.

(** C4, as stated, fails: a message that decodes to an object with no
    [e] field is dropped on an open socket with no diagnostic at all. *)
Lemma message_without_kind_is_dropped_silently :
  let o := mkOptions None true true None None in
  let h := (run o [SocketOpens 0] (mount o).1).1 in
  sockets h !! 0%nat = Some OPEN /\
  step o (SocketMessage 0 (Decoded (JObj [("E"%string, JNum 1)]))) h = (h, []).
Proof. split; reflexivity. Qed.

(** C4, amended: on an open socket, a message that cannot be decoded, or
    that decodes to a value that is neither an object nor an array, is
    answered with one malformed-message diagnostic; a message that
    decodes but whose payload has no [e], or a falsy one, is dropped
    with no diagnostic.  In all these cases no callback is called, the
    refs are left as they are, and the socket stays open. *)
Theorem unusable_message_is_discarded (o : Options) (h : Hook) (ws : nat) :
  sockets h !! ws = Some OPEN ->
  step o (SocketMessage ws Undecodable) h = (h, [ConsoleErrorMalformed]) /\
  (forall parsed,
     (forall ms, parsed <> JObj ms) -> (forall items, parsed <> JArr items) ->
     step o (SocketMessage ws (Decoded parsed)) h = (h, [ConsoleErrorMalformed])) /\
  (forall parsed payload,
     unwrap parsed = Normal payload -> truthy (opt_get "e" payload) = false ->
     step o (SocketMessage ws (Decoded parsed)) h = (h, [])) /\
  (forall m,
     (step o (SocketMessage ws m) h).1 = h /\
     sockets (step o (SocketMessage ws m) h).1 !! ws = Some OPEN).
Proof.
  intros Hws. simpl. rewrite Hws. split; [reflexivity|]. split; [|split].
  - intros parsed Ho Ha. simpl. rewrite (unwrap_primitive parsed Ho Ha). reflexivity.
  - intros parsed payload Hu He. simpl. rewrite Hu. unfold dispatch. rewrite He. reflexivity.
  - intros m. rewrite (proj1 (ws_onmessage_effects o m h)). auto.
Qed.

Lemma unusable_message_is_discarded_witness :
  let o := mkOptions None true true None None in
  let h := (run o [SocketOpens 0] (mount o).1).1 in
  step o (SocketMessage 0 Undecodable) h = (h, [ConsoleErrorMalformed]) /\
  step o (SocketMessage 0 (Decoded (JNum 7))) h = (h, [ConsoleErrorMalformed]) /\
  step o (SocketMessage 0 (Decoded (JObj [("stream"%string, JStr "s")]))) h = (h, []).
Proof.
  intros o h.
  destruct (unusable_message_is_discarded o h 0 eq_refl) as (H1 & H2 & H3 & _).
  split; [exact H1|]. split.
  - apply H2; discriminate.
  - apply (H3 _ None); reflexivity.
Defined.



(** C8, as stated, fails: a message that decodes to a number is not
    ignored silently, it is reported as malformed. *)
Lemma decoded_number_is_reported :
  let o := mkOptions None true true None None in
  let h := (run o [SocketOpens 0] (mount o).1).1 in
  sockets h !! 0%nat = Some OPEN /\
  step o (SocketMessage 0 (Decoded (JNum 42))) h = (h, [ConsoleErrorMalformed]).
Proof. split; reflexivity. Qed.



(** ** The stream address *)





(** C9, as stated, fails: with [combined] false the address names the
    trade topic only, yet a depth update that arrives on the socket is
    handed to [onDepthUpdate] all the same. *)
Lemma depth_update_is_delivered_without_combined :
  let o := mkOptions (Some "ETHUSDT"%string) true true (Some false) None in
  let h := (run o [SocketOpens 0] (mount o).1).1 in
  let depth := JObj [("e", JStr "depthUpdate"); ("b", JArr []); ("a", JArr [])]%string in
  (mount o).2 = [NewWebSocket "wss://stream.binance.com:9443/ws/ethusdt@aggTrade"] /\
  sockets h !! 0%nat = Some OPEN /\
  step o (SocketMessage 0 (Decoded depth)) h = (h, [CallDepthUpdate (Some depth)]).
Proof. repeat split. Qed.



(** ** After the cleanup, after [close] *)

Lemma step_unmounted o ev h :
  mounted h = false ->
  mounted (step o ev h).1 = false /\
  connections (step o ev h).2 = [] /\
  scheduled_delays (step o ev h).2 = [].
Proof.
  intros Hm. destruct ev as [ws|ws m|ws|ws| | | ]; simpl.
  - destruct (sockets h !! ws) as [[]|]; simpl; auto.
  - destruct (sockets h !! ws) as [[]|]; simpl; auto.
    rewrite (proj1 (ws_onmessage_effects o m h)).
    destruct (ws_onmessage_quiet o m h); auto.
  - destruct (sockets h !! ws) as [[]|]; simpl; auto.
  - unfold ws_onclose.
    destruct (sockets h !! ws) as [[]|]; simpl; rewrite ?Hm, ?orb_true_r; simpl; auto.
  - destruct (timers h); [auto|]. unfold connect; simpl. rewrite Hm. simpl. auto.
  - unfold close; simpl. destruct (wsRef h); simpl; auto.
  - unfold cleanup; simpl. destruct (wsRef h) as [ws|]; simpl; [|auto].
    destruct (sockets h !! ws) as [[]|]; simpl; auto.
Qed.

Lemma run_unmounted o tr : forall h,
  mounted h = false ->
  mounted (run o tr h).1 = false /\
  connections (run o tr h).2 = [] /\
  scheduled_delays (run o tr h).2 = [].
Proof.
  induction tr as [|ev tr IH]; intros h Hm; [simpl; auto|].
  rewrite run_cons; simpl. rewrite connections_app, scheduled_delays_app.
  destruct (step_unmounted o ev h Hm) as (Hm' & -> & ->).
  destruct (IH _ Hm') as (? & -> & ->). auto.
Qed.

Lemma cleanup_unmounts h : mounted (cleanup h).1 = false.
Proof.
  unfold cleanup; simpl. destruct (wsRef h) as [ws|]; [|reflexivity].
  destruct (sockets h !! ws) as [[]|]; reflexivity.
Qed.

(** Once the effect is cleaned up (the component unmounts), the hook
    never creates a socket and never sets a timer again, whatever
    happens afterwards, a pending reconnection timer firing included. *)
Theorem nothing_reconnects_after_cleanup (o : Options) (h : Hook) (tr : list Event) :
  connections (run o (Unmounted :: tr) h).2 = [] /\
  scheduled_delays (run o (Unmounted :: tr) h).2 = [].
Proof.
  rewrite run_cons; simpl. rewrite connections_app, scheduled_delays_app.
  destruct (run_unmounted o tr (cleanup h).1 (cleanup_unmounts h)) as (_ & -> & ->).
  unfold cleanup; simpl. destruct (wsRef h) as [ws|]; [|auto].
  destruct (sockets h !! ws) as [[]|]; auto.
Qed.

Ltac settle := repeat split; simpl; first [assumption | reflexivity | lia].

Lemma step_closedByUser o ev h :
  closedByUser h = true ->
  closedByUser (step o ev h).1 = true /\
  scheduled_delays (step o ev h).2 = [] /\
  (timers (step o ev h).1 + length (connections (step o ev h).2) <= timers h)%nat.
Proof.
  intros Hc. destruct ev as [ws|ws m|ws|ws| | | ]; simpl.
  - destruct (sockets h !! ws) as [[]|]; settle.
  - destruct (sockets h !! ws) as [[]|]; try settle.
    rewrite (proj1 (ws_onmessage_effects o m h)).
    destruct (ws_onmessage_quiet o m h) as [-> ->]. settle.
  - destruct (sockets h !! ws) as [[]|]; settle.
  - unfold ws_onclose.
    destruct (sockets h !! ws) as [[]|]; simpl; rewrite ?Hc; settle.
  - destruct (timers h) as [|n] eqn:Ht; [settle|]. unfold connect; simpl.
    destruct (mounted h); settle.
  - unfold close; simpl. destruct (wsRef h); settle.
  - unfold cleanup; simpl. destruct (wsRef h) as [ws|]; simpl; [|settle].
    destruct (sockets h !! ws) as [[]|]; settle.
Qed.

Lemma run_closedByUser o tr : forall h,
  closedByUser h = true ->
  scheduled_delays (run o tr h).2 = [] /\
  (timers (run o tr h).1 + length (connections (run o tr h).2) <= timers h)%nat.
Proof.
  induction tr as [|ev tr IH]; intros h Hc; [simpl; split; [reflexivity|lia]|].
  rewrite run_cons; simpl. rewrite connections_app, scheduled_delays_app, length_app.
  destruct (step_closedByUser o ev h Hc) as (Hc' & -> & Hle).
  destruct (IH _ Hc') as (-> & Hle'). split; [reflexivity|lia].
Qed.

(** After [close] is called, no reconnection is ever scheduled again,
    and the sockets created afterwards are at most as many as the
    reconnection timers that were pending at the call: with none
    pending, the hook never connects again. *)
Theorem close_stops_scheduling (o : Options) (h : Hook) (tr : list Event) :
  scheduled_delays (run o (CloseCalled :: tr) h).2 = [] /\
  (length (connections (run o (CloseCalled :: tr) h).2) <= timers h)%nat /\
  (timers h = 0%nat -> connections (run o (CloseCalled :: tr) h).2 = []).
Proof.
  rewrite run_cons. cbn [fst snd]. rewrite connections_app, scheduled_delays_app.
  assert (Hc : closedByUser (step o CloseCalled h).1 = true
               /\ timers (step o CloseCalled h).1 = timers h
               /\ connections (step o CloseCalled h).2 = []
               /\ scheduled_delays (step o CloseCalled h).2 = []).
  { simpl. unfold close; simpl. destruct (wsRef h); simpl; auto. }
  destruct Hc as (Hc & Ht & -> & ->).
  destruct (run_closedByUser o tr _ Hc) as (-> & Hle). rewrite Ht in Hle.
  cbn [app length Nat.add]. cbn [app length Nat.add] in Hle.
  split; [reflexivity|]. split; [lia|].
  intros H0. apply length_zero_iff_nil. lia.
Qed.

Lemma close_stops_scheduling_witness :
  let o := mkOptions None false false None None in
  let h := (run o [SocketOpens 0] (mount o).1).1 in
  connections (run o [CloseCalled; SocketCloses 0; TimerFires] h).2 = [].
Proof.
  intros o h.
  destruct (close_stops_scheduling o h [SocketCloses 0; TimerFires]) as (_ & _ & H).
  apply H. reflexivity.
Defined.

(** ** Bounds on the backoff *)

Lemma nth_backoff_in_range (k : nat) :
  PrimFloat.leb 500 (nth_backoff k) = true /\ PrimFloat.leb (nth_backoff k) 30000 = true.
Proof.
  destruct (le_lt_dec 7 k) as [Hk|Hk].
  - replace k with (7 + (k - 7))%nat by lia. rewrite nth_backoff_capped.
    split; vm_compute; reflexivity.
  - do 7 (destruct k as [|k]; [split; vm_compute; reflexivity|]). exfalso; lia.
Qed.

Lemma step_backoff_reachable o ev h :
  (exists k, backoffRef h = nth_backoff k) ->
  (exists k, backoffRef (step o ev h).1 = nth_backoff k) /\
  (forall d, d ∈ scheduled_delays (step o ev h).2 -> d = backoffRef h).
Proof.
  intros [k Hk]. destruct (is_open_event ev) eqn:Hev.
  - destruct ev; try discriminate. simpl.
    destruct (sockets h !! ws) as [[]|]; simpl;
      (split; [first [exists k; exact Hk | exists 0%nat; reflexivity]
              |intros d Hd; apply elem_of_nil in Hd; contradiction]).
  - destruct (step_delays o ev h Hev) as [[-> ->]|[-> ->]].
    + split; [exists k; exact Hk|]. intros d Hd. apply elem_of_nil in Hd. contradiction.
    + split; [exists (S k); rewrite Hk; reflexivity|].
      intros d Hd. apply list_elem_of_singleton in Hd. exact Hd.
Qed.

Lemma run_backoff_reachable o tr : forall h,
  (exists k, backoffRef h = nth_backoff k) ->
  forall d, d ∈ scheduled_delays (run o tr h).2 -> exists k, d = nth_backoff k.
Proof.
  induction tr as [|ev tr IH]; intros h Hr d;
    [simpl; intros Hd; apply elem_of_nil in Hd; contradiction|].
  rewrite run_cons; simpl. rewrite scheduled_delays_app.
  destruct (step_backoff_reachable o ev h Hr) as (Hr' & Hd').
  intros [Hd|Hd]%elem_of_app.
  - rewrite (Hd' d Hd). exact Hr.
  - apply (IH _ Hr' d Hd).
Qed.

(** Whatever happens to a mounted hook, opens, closes, errors, messages,
    [close] and the cleanup in any order, every delay it hands to
    [setTimeout] is one of the values of the backoff recurrence, and lies
    between 500 and 30000 milliseconds. *)
Theorem every_delay_is_between_500_and_30000
  (o : Options) (tr : list Event) (d : float) :
  d ∈ scheduled_delays (run o tr (mount o).1).2 ->
  (exists k, d = nth_backoff k) /\
  PrimFloat.leb 500 d = true /\ PrimFloat.leb d 30000 = true.
Proof.
  intros Hd.
  destruct (run_backoff_reachable o tr (mount o).1 (ex_intro _ 0%nat eq_refl) d Hd)
    as [k ->].
  split; [exists k; reflexivity|apply nth_backoff_in_range].
Qed.

Lemma every_delay_is_between_500_and_30000_witness :
  let o := mkOptions None false false None None in
  let ds := scheduled_delays (run o (failed_attempts 0 10) (mount o).1).2 in
  30000%float ∈ ds /\
  PrimFloat.leb 500 30000 = true /\ PrimFloat.leb 30000 30000 = true.
Proof.
  intros o ds.
  assert (Hd : 30000%float ∈ ds).
  { vm_compute. do 9 apply list_elem_of_further. apply list_elem_of_here. }
  split; [exact Hd|].
  apply (every_delay_is_between_500_and_30000 o (failed_attempts 0 10)), Hd.
Defined.

(** ** One connection at a time *)

Lemma live_count_cons r l :
  live_count (r :: l) = ((if live r then 1 else 0) + live_count l)%nat.
Proof.
  unfold live_count. rewrite filter_cons.
  destruct (decide (live r = true)) as [->|Hn]; [reflexivity|].
  destruct (live r); [congruence|reflexivity].
Qed.

Lemma live_count_app l1 l2 :
  live_count (l1 ++ l2) = (live_count l1 + live_count l2)%nat.
Proof. unfold live_count. rewrite filter_app, length_app. reflexivity. Qed.

Lemma live_count_insert l : forall i x y,
  l !! i = Some x ->
  (live_count (<[i:=y]> l) + (if live x then 1 else 0)
   = live_count l + (if live y then 1 else 0))%nat.
Proof.
  induction l as [|r l IH]; intros [|i] x y; simpl; try discriminate.
  - intros [= ->]. rewrite !live_count_cons. lia.
  - intros Hi. rewrite !live_count_cons. specialize (IH i x y Hi). lia.
Qed.

Lemma live_closing r : live (closing r) = live r.
Proof. destruct r; reflexivity. Qed.

Lemma live_count_alter_closing l : forall i,
  live_count (alter closing i l) = live_count l.
Proof.
  induction l as [|r l IH]; intros [|i]; simpl; try reflexivity.
  - rewrite !live_count_cons, live_closing. reflexivity.
  - rewrite !live_count_cons. f_equal. apply IH.
Qed.

Lemma ws_onclose_state h :
  wsRef (ws_onclose h).1 = None /\
  sockets (ws_onclose h).1 = sockets h /\
  (timers (ws_onclose h).1 <= S (timers h))%nat.
Proof.
  unfold ws_onclose; simpl. destruct (closedByUser h || negb (mounted h)); settle.
Qed.

Lemma step_single_connection o ev h :
  single_connection h -> single_connection (step o ev h).1.
Proof.
  unfold single_connection. intros Hs.
  destruct ev as [ws|ws m|ws|ws| | | ]; simpl.
  - destruct (sockets h !! ws) as [[]|] eqn:Hws; simpl; try exact Hs.
    pose proof (live_count_insert _ _ _ OPEN Hws). simpl in *. lia.
  - destruct (sockets h !! ws) as [[]|]; try exact Hs.
    rewrite (proj1 (ws_onmessage_effects o m h)). exact Hs.
  - destruct (sockets h !! ws) as [[]|]; exact Hs.
  - destruct (sockets h !! ws) as [[]|] eqn:Hws; try exact Hs;
      match goal with
      | |- context [ws_onclose ?x] =>
          destruct (ws_onclose_state x) as (_ & -> & Ht); simpl in *;
          pose proof (live_count_insert _ _ _ CLOSED Hws); simpl in *; lia
      end.
  - destruct (timers h) as [|n] eqn:Ht; [simpl; lia|].
    unfold connect; simpl. destruct (mounted h); simpl; [|lia].
    rewrite live_count_app. unfold live_count at 2. simpl. lia.
  - unfold close; simpl. destruct (wsRef h); simpl; [|exact Hs].
    rewrite live_count_alter_closing. exact Hs.
  - unfold cleanup; simpl. destruct (wsRef h) as [ws|]; simpl; [|exact Hs].
    destruct (sockets h !! ws) as [[]|]; simpl; try exact Hs.
    rewrite live_count_alter_closing. exact Hs.
Qed.

Lemma step_wsRef_alive o ev h :
  wsRef_alive h -> wsRef_alive (step o ev h).1.
Proof.
  unfold wsRef_alive. intros Hw.
  destruct ev as [ws|ws m|ws|ws| | | ]; simpl.
  - destruct (sockets h !! ws) as [[]|] eqn:Hws; simpl; try exact Hw.
    intros ws' Hws'. destruct (decide (ws = ws')) as [<-|Hne].
    + exists OPEN. split; [|reflexivity].
      apply list_lookup_insert_eq. eapply lookup_lt_Some, Hws.
    + rewrite list_lookup_insert_ne by exact Hne. apply Hw, Hws'.
  - destruct (sockets h !! ws) as [[]|]; try exact Hw.
    rewrite (proj1 (ws_onmessage_effects o m h)). exact Hw.
  - destruct (sockets h !! ws) as [[]|]; exact Hw.
  - destruct (sockets h !! ws) as [[]|]; try exact Hw;
      match goal with
      | |- context [ws_onclose ?x] =>
          destruct (ws_onclose_state x) as (-> & _ & _); discriminate
      end.
  - destruct (timers h) as [|n]; [exact Hw|].
    unfold connect; simpl. destruct (mounted h); simpl; [|exact Hw].
    intros ws' [= <-]. exists CONNECTING. split; [|reflexivity].
    apply list_lookup_middle. reflexivity.
  - unfold close; simpl. destruct (wsRef h) as [ws|] eqn:Hr; simpl;
      intros ws' Hws'; rewrite ?Hr in Hws'; [|discriminate].
    injection Hws' as <-. destruct (Hw ws eq_refl) as (r & Hr' & Hl).
    exists (closing r). rewrite list_lookup_alter_eq, Hr', live_closing. auto.
  - unfold cleanup; simpl. destruct (wsRef h) as [ws|]; simpl; [|discriminate].
    destruct (sockets h !! ws) as [[]|]; simpl; discriminate.
Qed.

(** In every state a mounted hook can reach, at most one of its sockets
    is not closed, no reconnection timer is pending while a socket is
    alive (and never more than one timer), and [wsRef], when set, holds
    a socket that is not closed. *)
Theorem one_connection_at_a_time (o : Options) (tr : list Event) :
  let h := (run o tr (mount o).1).1 in
  (live_count (sockets h) + timers h <= 1)%nat /\
  (forall ws, wsRef h = Some ws ->
     exists r, sockets h !! ws = Some r /\ live r = true).
Proof.
  intros h. subst h.
  assert (H : forall tr h, single_connection h /\ wsRef_alive h ->
            single_connection (run o tr h).1 /\ wsRef_alive (run o tr h).1).
  { clear tr. induction tr as [|ev tr IH]; intros h [Hs Hw]; [simpl; auto|].
    rewrite run_cons; simpl. apply IH.
    split; [apply step_single_connection, Hs|apply step_wsRef_alive, Hw]. }
  apply H. split.
  - unfold single_connection. simpl. unfold live_count. simpl. lia.
  - intros ws [= <-]. exists CONNECTING. split; reflexivity.
Qed.

End SocketFacts.
